(** * Member Q&A service: the in-memory data store and the /ask endpoint

    A shallow embedding of [main.py]: the [DataStore] class
    ([__init__], [fetch_and_index], [retrieve_relevant_context]), the
    [startup_event] hook and the [read_root] and [ask_question] handlers,
    followed by the properties of the retrieval core that the
    specification states about them and by further properties of the
    build, the ranking and the handlers.

    External collaborators are parameters of the development:
    - the sentence-embedding model ([self.model.encode]) is a function
      [encode] from a text to an [embedding];
    - [sklearn]'s [cosine_similarity] is a function from two embeddings to
      a score; scores are rationals ([Qc]), which keeps the order and the
      exact ties of the floating-point scores and nothing of their
      rounding;
    - the HTTP exchange with the data source is an input value
      ([http_exchange]) telling what [client.get] did;
    - the generative model is an oracle [llm] from a prompt to either the
      text of the response or an exception; every prompt handed to it is
      recorded in a call log. *)

From Stdlib Require Import Ascii QArith Qcanon.
From stdpp Require Import base option list numbers strings gmap sorting.

Local Close Scope Q_scope.
Local Close Scope Qc_scope.
Local Open Scope string_scope.
Local Open Scope list_scope.

(** ** Exceptions and the state-and-exception monad *)

(** The Python exceptions that the modelled code raises or lets through. *)
Inductive exn : Type :=
| RequestError (detail : string)      (* httpx.RequestError: transport level *)
| HTTPStatusError (status : Z)        (* httpx.HTTPStatusError, from raise_for_status *)
| JSONDecodeError (detail : string)   (* from response.json() *)
| IndexError                          (* list index out of range *)
| Exception (detail : string)         (* any failure of the generative model *)
| HTTPException (status_code : Z) (detail : string).  (* fastapi.HTTPException *)

Inductive result (A : Type) : Type :=
| Return (a : A)
| Raise (e : exn).
Arguments Return {A} a.
Arguments Raise {A} e.

(** A computation over a mutable state [S] that returns or raises. *)
Definition M (S A : Type) : Type := S -> result A * S.

Definition ret {S A} (a : A) : M S A := fun s => (Return a, s).

Definition raise {S A} (e : exn) : M S A := fun s => (Raise e, s).

Definition bind {S A B} (m : M S A) (k : A -> M S B) : M S B :=
  fun s =>
    match m s with
    | (Return a, s') => k a s'
    | (Raise e, s') => (Raise e, s')
    end.

Notation "'let*' x ':=' m 'in' k" := (bind m (fun x => k))
  (at level 10, x pattern, m at level 100, k at level 200).

(** [try: body except handler]: the handler chooses the exceptions it
    catches ([None] lets the exception through); the state keeps the
    writes the body made before it raised. *)
Definition try_except {S A} (body : M S A) (handler : exn -> option (M S A)) : M S A :=
  fun s =>
    match body s with
    | (Return a, s') => (Return a, s')
    | (Raise e, s') =>
        match handler e with
        | Some h => h s'
        | None => (Raise e, s')
        end
    end.

Definition lift {S A} (r : result A) : M S A := fun s => (r, s).

(** ** The data source *)

(** A JSON object of the [items] array: the code reads its ["user_name"]
    and ["message"] keys. *)
Abbreviation item := (gmap string string).

(** The decoded body: the code reads its ["items"] key. The body is
    taken in the shape the data source serves it, an object whose
    ["items"] are objects with string values; on another JSON value the
    code raises an error of Python, which is outside this model. *)
Abbreviation raw_data := (gmap string (list item)).

(** What the data source answered: its status code and the outcome of
    [response.json()] ([None]: the body is not JSON). *)
Record Response : Type := {
  status_code : Z;
  json : option raw_data
}.

(** What [client.get] did: it raised a transport error, or it returned a
    response. *)
Inductive http_exchange : Type :=
| GetRaises (detail : string)
| GetReturns (response : Response).

Definition client_get {S} (net : http_exchange) : M S Response :=
  match net with
  | GetRaises d => raise (RequestError d)
  | GetReturns r => ret r
  end.

(** [response.raise_for_status()], "raises exception for 4xx/5xx" as the
    source has it; what it does on other statuses that are not 2xx is
    left to the library. *)
Definition raise_for_status {S} (response : Response) : M S unit :=
  if bool_decide (400 ≤ status_code response ≤ 599)%Z
  then raise (HTTPStatusError (status_code response))
  else ret ().

Definition response_json {S} (response : Response) : M S raw_data :=
  match json response with
  | Some d => ret d
  | None => raise (JSONDecodeError "Expecting value")
  end.

(** ** Python list and string helpers *)

(** [l[start:]] for a possibly negative [start]. *)
Definition slice_from {A} (start : Z) (l : list A) : list A :=
  let n := Z.of_nat (length l) in
  let s := if bool_decide (start < 0)%Z then Z.max (start + n) 0 else Z.min start n in
  drop (Z.to_nat s) l.

Definition newline : string := String "010"%char "".

(** The characters [str.strip()] removes, among the code points below 128. *)
Definition is_space (c : ascii) : bool :=
  let n := nat_of_ascii c in
  bool_decide (9 ≤ n ≤ 13)%nat || bool_decide (28 ≤ n ≤ 32)%nat.

Fixpoint lstrip (s : string) : string :=
  match s with
  | String c s' => if is_space c then lstrip s' else s
  | EmptyString => EmptyString
  end.

Definition strip (s : string) : string :=
  String.rev (lstrip (String.rev (lstrip s))).


(** ** In-memory data store *)

Section DataStore.

(** The embedding model and the similarity measure. *)
Context {embedding : Type}.
Variable encode : string -> embedding.
Variable cosine_similarity : embedding -> embedding -> Qc.

Record DataStore : Type := {
  messages : list string;                 (* the raw text of the messages *)
  embeddings : option (list embedding)    (* [None] is Python's [None] *)
}.

(** [DataStore.__init__] *)
Definition init : DataStore := {| messages := []; embeddings := None |}.

Definition set_messages (ms : list string) : M DataStore unit :=
  fun self => (Return (), {| messages := ms; embeddings := embeddings self |}).

Definition set_embeddings (es : list embedding) : M DataStore unit :=
  fun self => (Return (), {| messages := messages self; embeddings := Some es |}).

Definition get_messages : M DataStore (list string) :=
  fun self => (Return (messages self), self).

(** The [if] of the list comprehension. *)
Definition has_fields (it : item) : Prop :=
  is_Some (it !! "message") ∧ is_Some (it !! "user_name").

Global Instance has_fields_dec it : Decision (has_fields it).
Proof. unfold has_fields. apply _. Defined.

(** [f"{item['user_name']}: {item['message']}"]; the two subscripts
    are only evaluated on items that passed [has_fields]. *)
Definition format_item (it : item) : string :=
  (it !!! "user_name") +:+ ": " +:+ (it !!! "message").

Definition format_items (items : list item) : list string :=
  format_item <$> filter has_fields items.

(** [DataStore.fetch_and_index] *)
Definition fetch_and_index (net : http_exchange) : M DataStore unit :=
  try_except
    (let* response := client_get net in
     let* _ := raise_for_status response in
     let* raw := response_json response in
     let items := default [] (raw !! "items") in
     let* _ := set_messages (format_items items) in
     let* ms := get_messages in
     if bool_decide (ms = []) then ret ()
     else set_embeddings (encode <$> ms))
    (fun e =>
       match e with
       | RequestError _ => Some (set_messages [])
       | _ => None
       end).

(** *** Retrieval *)

(** The relevance threshold of the loop, [0.3]. *)
Definition threshold : Qc := Q2Qc (3 # 10).

(** [np.argsort(similarities)]: the indices that sort the scores in
    ascending order. It is modelled as the insertion pass numpy runs on
    short arrays, which keeps equal scores in index order. numpy's
    default sort is not stable: on longer arrays the order of equal
    scores is not fixed. The statements about ties therefore do not use
    this function; they range over every ascending order of the indices
    (see [is_argsort]). *)
Fixpoint insert_by_score (p : nat * Qc) (l : list (nat * Qc)) : list (nat * Qc) :=
  match l with
  | [] => [p]
  | q :: l' =>
      if bool_decide (p.2 ≤ q.2)%Qc then p :: q :: l'
      else q :: insert_by_score p l'
  end.

Definition sort_by_score (l : list (nat * Qc)) : list (nat * Qc) :=
  foldr insert_by_score [] l.

Definition argsort (a : list Qc) : list nat :=
  (sort_by_score (imap pair a)).*1.

(** [np.argsort(similarities)[-top_k:][::-1]] *)
Definition top_k_indices (similarities : list Qc) (top_k : Z) : list nat :=
  reverse (slice_from (- top_k) (argsort similarities)).

(** The loop that builds the context string; [similarities[idx]] and
    [self.messages[idx]] raise [IndexError] out of range. *)
Fixpoint build_context (similarities : list Qc) (msgs : list string)
    (idxs : list nat) (context : string) : result string :=
  match idxs with
  | [] => Return context
  | idx :: rest =>
      match similarities !! idx with
      | None => Raise IndexError
      | Some s =>
          if bool_decide (threshold < s)%Qc then
            match msgs !! idx with
            | None => Raise IndexError
            | Some m => build_context similarities msgs rest (context +:+ m +:+ newline)
            end
          else build_context similarities msgs rest context
      end
  end.

(** [DataStore.retrieve_relevant_context] *)
Definition retrieve_relevant_context (self : DataStore) (question : string)
    (top_k : Z) : result string :=
  match embeddings self with
  | None => Return ""
  | Some es =>
      if bool_decide (length es = 0%nat) then Return ""
      else
        let question_embedding := encode question in
        let similarities := cosine_similarity question_embedding <$> es in
        build_context similarities (messages self)
          (top_k_indices similarities top_k) ""
  end.

(** The default of the [top_k] parameter. *)
Definition default_top_k : Z := 10.

(** *** The /ask endpoint *)

(** The generative model: the text of its response to a prompt, or the
    exception the call (or reading [response.text]) raised. *)
Variable llm : string -> result string.

Record AnswerResponse : Type := { answer : string }.

(** [llm.generate_content_async(prompt)] followed by [response.text];
    the state is the log of the prompts sent to the model. *)
Definition generate_content_async (prompt : string) : M (list string) string :=
  fun calls => (llm prompt, calls ++ [prompt]).

Definition no_information : string :=
  "I could not find any relevant information in the member messages to answer this question.".

Definition trouble_generating : string :=
  "I'm having trouble generating an answer. Please try rephrasing your question.".

Definition unavailable_detail : string :=
  "Service is unavailable. Data store is not initialized.".

Definition generation_error_detail : string :=
  "Error generating answer. Please check your GEMINI_API_KEY is valid.".

Definition make_prompt (context question : string) : string :=
  "You are a helpful assistant answering questions about member preferences and activities." +:+ newline +:+
  newline +:+
  "Answer the user's question based ONLY on the provided member messages below." +:+ newline +:+
  "If the answer is not in the messages, clearly state that you cannot find the information." +:+ newline +:+
  "Be concise but informative." +:+ newline +:+
  newline +:+
  "--- MEMBER MESSAGES ---" +:+ newline +:+
  context +:+ newline +:+
  "--- END MESSAGES ---" +:+ newline +:+
  newline +:+
  "Question: " +:+ question +:+ newline +:+
  newline +:+
  "Answer (be specific and cite member names when relevant):".

(** [ask_question], on the global [data_store]. *)
Definition ask_question (data_store : DataStore) (question : string)
    : M (list string) AnswerResponse :=
  if bool_decide (messages data_store = []) then
    raise (HTTPException 503 unavailable_detail)
  else
    let* context := lift (retrieve_relevant_context data_store question default_top_k) in
    if bool_decide (context = "") then
      ret {| answer := no_information |}
    else
      let prompt := make_prompt context question in
      try_except
        (let* text := generate_content_async prompt in
         let answer := strip text in
         let answer := if bool_decide (answer = "") then trouble_generating else answer in
         ret {| answer := answer |})
        (fun e => Some (raise (HTTPException 500 generation_error_detail))).

(** *** Startup and the status endpoint *)

(** [startup_event], on the global [data_store]. *)
Definition startup_event (net : http_exchange) : M DataStore unit :=
  fetch_and_index net.

(** The body of the answer to [GET /]. *)
Record RootResponse : Type := {
  status : string;
  message : string;
  indexed_messages : nat
}.

(** [read_root] *)
Definition read_root (data_store : DataStore) : RootResponse :=
  {| status := "online";
     message := "Member Q&A System is running.";
     indexed_messages := length (messages data_store) |}.

(** *** Derived notions used by the statements *)

(** The states the store goes through: the constructor's, and the one
    any build leaves behind, whether it returned or raised. *)
Inductive reachable : DataStore -> Prop :=
| reachable_init : reachable init
| reachable_build net st :
    reachable st -> reachable (fetch_and_index net st).2.

(** A build that got a decoded body out of the data source. *)
Definition delivers (net : http_exchange) (raw : raw_data) : Prop :=
  ∃ r, net = GetReturns r ∧ ¬ (400 ≤ status_code r ≤ 599)%Z ∧ json r = Some raw.

(** The records of a body that pass the filter of the build. *)
Definition kept_items (raw : raw_data) : list item :=
  filter has_fields (default [] (raw !! "items")).

(** Pairing of the two sequences: [len(embeddings) == len(messages)],
    or both are empty or absent. *)
Definition paired (st : DataStore) : Prop :=
  (∃ es, embeddings st = Some es ∧ length es = length (messages st)) ∨
  (messages st = [] ∧ (embeddings st = None ∨ embeddings st = Some [])).

(** The pairing the build does maintain: it holds whenever there are
    messages. *)
Definition paired_when_nonempty (st : DataStore) : Prop :=
  (∃ es, embeddings st = Some es ∧ length es = length (messages st)) ∨
  messages st = [].

(** Alignment of the two sequences: as soon as there are messages, the
    embeddings are their encodings, in the same order. *)
Definition aligned (st : DataStore) : Prop :=
  messages st ≠ [] -> embeddings st = Some (encode <$> messages st).

(** The score of a stored message for a question is above the threshold. *)
Definition relevant (similarities : list Qc) (idx : nat) : Prop :=
  ∃ s, similarities !! idx = Some s ∧ (threshold < s)%Qc.

Global Instance relevant_dec similarities idx : Decision (relevant similarities idx).
Proof.
  unfold relevant. destruct (similarities !! idx) as [s|].
  - destruct (decide (threshold < s)%Qc) as [H|H].
    + left. eauto.
    + right. intros (s' & [= <-] & ?). done.
  - right. intros (s' & [=] & _).
Defined.

(** The indices whose messages the loop appends, in the order it does. *)
Definition selected (similarities : list Qc) (top_k : Z) : list nat :=
  filter (relevant similarities) (top_k_indices similarities top_k).

(** Newline-terminated lines. *)
Definition lines (ms : list string) : string :=
  foldr (λ m acc, m +:+ newline +:+ acc) "" ms.

(** The order [argsort] puts the (index, score) pairs in: ascending
    score, and ascending index among equal scores. *)
Definition pair_asc (p q : nat * Qc) : Prop :=
  (p.2 < q.2)%Qc ∨ (p.2 = q.2 ∧ (p.1 < q.1)%nat).

(** The same order on the indices of an array of scores. *)
Definition rank_asc (a : list Qc) (i j : nat) : Prop :=
  ∃ si sj, a !! i = Some si ∧ a !! j = Some sj ∧ pair_asc (i, si) (j, sj).

(** The score at [i] is at most the score at [j]. *)
Definition score_le (a : list Qc) (i j : nat) : Prop :=
  ∃ si sj, a !! i = Some si ∧ a !! j = Some sj ∧ (si ≤ sj)%Qc.

(** What [np.argsort] with its default kind promises of its result
    [order] on the array [a]: the indices of [a], each once, in
    ascending order of score. The order of equal scores is left open. *)
Definition is_argsort (a : list Qc) (order : list nat) : Prop :=
  order ≡ₚ seq 0 (length a) ∧ StronglySorted (score_le a) order.

(** [order[-top_k:][::-1]]: the ranking of the code, from the result
    [order] of [np.argsort]. *)
Definition ranked_from (order : list nat) (top_k : Z) : list nat :=
  reverse (slice_from (- top_k) order).

(** [x] comes before [y] in [l]. *)
Definition before {A} (l : list A) (x y : A) : Prop :=
  ∃ l1 l2 l3, l = l1 ++ x :: l2 ++ y :: l3.

(** Tie rule of the specification: of two ranked messages with equal
    scores, the one with the lower index comes first. *)
Definition ties_lower_index_first (similarities : list Qc)
    (order : list nat) (top_k : Z) : Prop :=
  ∀ i j,
    before (ranked_from order top_k) i j ->
    similarities !! i = similarities !! j ->
    (i < j)%nat.

End DataStore.

Arguments DataStore : clear implicits.
Arguments messages {embedding} _.
Arguments embeddings {embedding} _.
Arguments init {embedding}.

(** ** A small embedding model, to run the code on concrete inputs

    A text is embedded as its length; two embeddings have similarity 1
    when they are equal and 0 otherwise. *)
Module Toy.

Definition encode (s : string) : nat := String.length s.

Definition cosine_similarity (a b : nat) : Qc :=
  if bool_decide (a = b) then 1%Qc else 0%Qc.

Definition record (user_name message : string) : item :=
  {[ "user_name" := user_name; "message" := message ]}.

Definition ok (items : list item) : http_exchange :=
  GetReturns {| status_code := 200; json := Some {[ "items" := items ]} |}.

Definition amy : item := record "Amy" "tea".
Definition sam : item := record "Sam" "pie".

(** The store after a first build that fetched two records. *)
Definition two_messages : DataStore nat :=
  (fetch_and_index encode (ok [amy; sam]) init).2.

(** The body of a rebuild in which no record is well formed. *)
Definition no_items : raw_data := {[ "items" := [] ]}.

(** A question as long as the two stored messages (it is the first of
    them), and a shorter one. *)
Definition close_question : string := "Amy: tea".
Definition far_question : string := "coffee?".

(** The context that lists both stored messages, the second first. *)
Definition two_lines : string :=
  "Sam: pie" +:+ newline +:+ "Amy: tea" +:+ newline.

(** A record without a [message], and a body without an [items] key. *)
Definition anonymous : item := {[ "user_name" := "Bob" ]}.
Definition no_items_key : raw_data := {[ "total" := [] ]}.

(** A generative model that answers in words. *)
Definition helpful (prompt : string) : result string :=
  Return ("  Amy likes tea." +:+ newline).

(** A generative model that answers with blanks, and one that fails. *)
Definition blank (prompt : string) : result string := Return ("  " +:+ newline).
Definition failing (prompt : string) : result string :=
  Raise (Exception "429 quota exceeded for key AIza...").

End Toy.

(** ** The build *)

Section Build.

Context {embedding : Type}.
Variable encode : string -> embedding.

Implicit Types (st : DataStore embedding) (net : http_exchange).

(** The four ways through [fetch_and_index]. *)

Lemma fetch_and_index_request_error d st :
  fetch_and_index encode (GetRaises d) st =
    (Return (), {| messages := []; embeddings := embeddings st |}).
Proof. reflexivity. Qed.

Lemma fetch_and_index_status_error r st :
  (400 ≤ status_code r ≤ 599)%Z ->
  fetch_and_index encode (GetReturns r) st =
    (Raise (HTTPStatusError (status_code r)), st).
Proof.
  intros Hs. unfold fetch_and_index, try_except, bind, client_get, ret.
  unfold raise_for_status. rewrite bool_decide_eq_true_2 by done. reflexivity.
Qed.

Lemma fetch_and_index_json_error r st :
  ¬ (400 ≤ status_code r ≤ 599)%Z -> json r = None ->
  fetch_and_index encode (GetReturns r) st =
    (Raise (JSONDecodeError "Expecting value"), st).
Proof.
  intros Hs Hj. unfold fetch_and_index, try_except, bind, client_get, ret.
  unfold raise_for_status, response_json.
  rewrite bool_decide_eq_false_2 by done. rewrite Hj. reflexivity.
Qed.

Lemma fetch_and_index_delivers net raw st :
  delivers net raw ->
  fetch_and_index encode net st =
    (Return (),
     let ms := format_item <$> kept_items raw in
     if bool_decide (ms = [])
     then {| messages := ms; embeddings := embeddings st |}
     else {| messages := ms; embeddings := Some (encode <$> ms) |}).
Proof.
  intros (r & -> & Hs & Hj).
  unfold fetch_and_index, try_except, bind, client_get, ret.
  unfold raise_for_status, response_json.
  rewrite bool_decide_eq_false_2 by done. rewrite Hj. cbn.
  unfold kept_items, format_items.
  by destruct (bool_decide _).
Qed.

(** Every exchange is one of the four. *)
Lemma http_exchange_cases net :
  (∃ d, net = GetRaises d) ∨
  (∃ r, net = GetReturns r ∧ (400 ≤ status_code r ≤ 599)%Z) ∨
  (∃ r, net = GetReturns r ∧ ¬ (400 ≤ status_code r ≤ 599)%Z ∧ json r = None) ∨
  (∃ raw, delivers net raw).
Proof.
  destruct net as [d|r]; [by eauto|].
  destruct (decide (400 ≤ status_code r ≤ 599)%Z); [by eauto 6|].
  destruct (json r) as [raw|] eqn:Hj; [|by eauto 8].
  do 3 right. exists raw, r. done.
Qed.

(** C1, as the code has it: when the request raises a transport error,
    [fetch_and_index] returns normally, empties the message list and
    leaves the embeddings as they were. *)
Theorem transport_error_resets_messages d st :
  fetch_and_index encode (GetRaises d) st =
    (Return (), {| messages := []; embeddings := embeddings st |}).
Proof. apply fetch_and_index_request_error. Qed.

(** C9: an HTTP error status (raise_for_status) and a body that is not
    JSON are not handled by the build: the exception reaches the caller
    and the store is as it was, instead of being emptied. *)
Theorem status_and_json_errors_propagate r st :
  ((400 ≤ status_code r ≤ 599)%Z ->
     fetch_and_index encode (GetReturns r) st =
       (Raise (HTTPStatusError (status_code r)), st)) ∧
  (¬ (400 ≤ status_code r ≤ 599)%Z -> json r = None ->
     ∃ d, fetch_and_index encode (GetReturns r) st = (Raise (JSONDecodeError d), st)).
Proof.
  split.
  - apply fetch_and_index_status_error.
  - intros Hs Hj. eexists. by apply fetch_and_index_json_error.
Qed.

(** The pairing that every build keeps. *)
Lemma fetch_and_index_paired_when_nonempty net st :
  paired_when_nonempty st ->
  paired_when_nonempty (fetch_and_index encode net st).2.
Proof.
  intros Hst.
  destruct (http_exchange_cases net)
    as [(d & ->)|[(r & -> & Hs)|[(r & -> & Hs & Hj)|(raw & Hraw)]]].
  - rewrite fetch_and_index_request_error. by right.
  - by rewrite fetch_and_index_status_error.
  - by rewrite fetch_and_index_json_error.
  - rewrite (fetch_and_index_delivers _ _ _ Hraw). cbn.
    case_bool_decide as Hms; cbn.
    + by right.
    + left. eexists. split; [done|]. by rewrite length_fmap.
Qed.

(** C2, as the code has it: in every state reachable through builds,
    the message list is empty or the embeddings are present and as many
    as the messages. *)
Theorem reachable_paired_when_nonempty st :
  reachable encode st -> paired_when_nonempty st.
Proof.
  induction 1 as [|net st _ IH].
  - by right.
  - by apply fetch_and_index_paired_when_nonempty.
Qed.

End Build.

(** C1 as stated does not hold: a transport error on a rebuild changes a
    store that holds two messages. *)
Lemma transport_error_changes_state :
  ¬ (∀ (embedding : Type) (encode : string -> embedding) d st,
       (fetch_and_index encode (GetRaises d) st).2 = st).
Proof.
  intros H.
  specialize (H nat Toy.encode "connection refused" Toy.two_messages).
  vm_compute in H. discriminate H.
Qed.

(** C2 as stated does not hold: after a build of two messages and a
    rebuild whose request fails, two embeddings face no message. *)
Lemma reachable_not_paired :
  ¬ (∀ (embedding : Type) (encode : string -> embedding) st,
       reachable encode st -> paired st).
Proof.
  intros H.
  specialize (H nat Toy.encode
    (fetch_and_index Toy.encode (GetRaises "connection refused") Toy.two_messages).2).
  destruct H as [(es & Hes & Hlen)|(_ & [He|He])].
  - apply reachable_build. unfold Toy.two_messages.
    apply reachable_build. constructor.
  - vm_compute in Hes. injection Hes as <-. vm_compute in Hlen. discriminate.
  - vm_compute in He. discriminate.
  - vm_compute in He. discriminate.
Qed.

(** An error status and an undecodable body, on the store of two messages. *)
Lemma status_and_json_errors_propagate_witness :
  fetch_and_index Toy.encode
    (GetReturns {| status_code := 503; json := None |}) Toy.two_messages =
    (Raise (HTTPStatusError 503), Toy.two_messages) ∧
  ∃ d, fetch_and_index Toy.encode
    (GetReturns {| status_code := 200; json := None |}) Toy.two_messages =
    (Raise (JSONDecodeError d), Toy.two_messages).
Proof.
  split.
  - apply (status_and_json_errors_propagate Toy.encode
             {| status_code := 503; json := None |} Toy.two_messages).
    cbn. lia.
  - apply (status_and_json_errors_propagate Toy.encode
             {| status_code := 200; json := None |} Toy.two_messages).
    + cbn. lia.
    + reflexivity.
Defined.

Lemma reachable_paired_when_nonempty_witness :
  paired_when_nonempty Toy.two_messages.
Proof.
  apply (reachable_paired_when_nonempty Toy.encode).
  unfold Toy.two_messages. apply reachable_build. apply reachable_init.
Defined.

(** ** Strings and lists *)

Lemma append_String c s t : String c s +:+ t = String c (s +:+ t).
Proof. reflexivity. Qed.

Lemma append_empty_l s : "" +:+ s = s.
Proof. reflexivity. Qed.

Lemma append_empty_r s : s +:+ "" = s.
Proof. induction s as [|c s IH]; [done|]. by rewrite append_String, IH. Qed.

Lemma append_assoc s t u : (s +:+ t) +:+ u = s +:+ t +:+ u.
Proof. induction s as [|c s IH]; [done|]. by rewrite !append_String, IH. Qed.

Lemma slice_from_length {A} (start : Z) (l : list A) :
  (start < 0)%Z -> (Z.of_nat (length (slice_from start l)) ≤ - start)%Z.
Proof.
  intros Hs. unfold slice_from.
  rewrite bool_decide_eq_true_2 by done. rewrite length_drop. lia.
Qed.

Lemma slice_from_sublist {A} (start : Z) (l : list A) :
  slice_from start l `sublist_of` l.
Proof. apply sublist_drop. Qed.

Lemma slice_from_0 {A} (l : list A) : slice_from 0 l = l.
Proof.
  unfold slice_from. rewrite bool_decide_eq_false_2 by lia.
  by rewrite Z.min_l by lia.
Qed.

Lemma slice_from_last {A} (start : Z) (l : list A) (x : A) :
  (start < 0)%Z -> x ∈ slice_from start (l ++ [x]).
Proof.
  intros Hs. unfold slice_from.
  rewrite bool_decide_eq_true_2 by done.
  rewrite length_app. cbn [length].
  rewrite drop_app_le by lia. set_solver.
Qed.

Section sorted.

Context {A : Type} (R : relation A).

Lemma StronglySorted_sublist (l k : list A) :
  l `sublist_of` k -> StronglySorted R k -> StronglySorted R l.
Proof.
  induction 1 as [|x l k Hlk IH|x l k Hlk IH]; intros Hk.
  - constructor.
  - apply StronglySorted_inv in Hk as [Hk Hx].
    constructor; [by apply IH|].
    rewrite Forall_forall in Hx |- *.
    intros y Hy. apply Hx. by eapply elem_of_sublist.
  - apply StronglySorted_inv in Hk as [Hk _]. by apply IH.
Qed.

Lemma StronglySorted_reverse (l : list A) :
  StronglySorted R l -> StronglySorted (flip R) (reverse l).
Proof.
  induction 1 as [|x l Hl IH Hx]; [constructor|].
  rewrite reverse_cons. apply StronglySorted_app_2.
  - intros y z Hy Hz. rewrite elem_of_reverse in Hy.
    apply list_elem_of_singleton in Hz as ->.
    rewrite Forall_forall in Hx. by apply Hx.
  - done.
  - repeat constructor.
Qed.

Lemma StronglySorted_lookup_2 (l : list A) :
  (∀ i j x y, (i < j)%nat -> l !! i = Some x -> l !! j = Some y -> R x y) ->
  StronglySorted R l.
Proof.
  induction l as [|x l IH]; intros H; constructor.
  - apply IH. intros i j y z Hij Hy Hz. by apply (H (S i) (S j)); [lia|..].
  - apply Forall_lookup. intros j y Hy. by apply (H 0%nat (S j)); [lia|..].
Qed.

Lemma StronglySorted_split (l1 l2 l3 : list A) (x y : A) :
  StronglySorted R (l1 ++ x :: l2 ++ y :: l3) -> R x y.
Proof.
  intros H. apply StronglySorted_app_1_r in H.
  apply StronglySorted_inv in H as [_ H].
  rewrite Forall_forall in H. apply H. set_solver.
Qed.

End sorted.

(** ** Ranking *)

Section Ranking.

Implicit Types (p q : nat * Qc) (l : list (nat * Qc)) (a : list Qc).

Lemma pair_asc_le p q : pair_asc p q -> (p.2 ≤ q.2)%Qc.
Proof.
  intros [H|[H _]].
  - by apply Qclt_le_weak.
  - rewrite H. apply Qcle_refl.
Qed.

Lemma insert_by_score_perm p l : insert_by_score p l ≡ₚ p :: l.
Proof.
  induction l as [|q l IH]; cbn; [done|].
  case_bool_decide; [done|].
  rewrite IH. apply Permutation_swap.
Qed.

Lemma sort_by_score_perm l : sort_by_score l ≡ₚ l.
Proof.
  induction l as [|p l IH]; cbn; [done|].
  rewrite insert_by_score_perm. by f_equiv.
Qed.

Lemma insert_by_score_sorted p l :
  Forall (λ q, p.1 < q.1)%nat l ->
  StronglySorted pair_asc l ->
  StronglySorted pair_asc (insert_by_score p l).
Proof.
  induction l as [|q l IH]; intros Hp Hl; cbn.
  { repeat constructor. }
  apply Forall_cons in Hp as [Hpq Hp].
  apply StronglySorted_inv in Hl as [Hl Hq].
  case_bool_decide as Hle.
  - constructor; [by constructor|].
    assert (pair_asc p q) as Hpq'.
    { destruct (decide (p.2 = q.2)) as [Heq|Hne]; [by right|].
      left. by apply Qcle_lt_or_eq in Hle as [?|?]. }
    constructor; [done|].
    rewrite Forall_forall in Hp, Hq |- *. intros r Hr.
    destruct (decide (p.2 = r.2)) as [Heq|Hne]; [right; by auto|].
    left. apply Qclt_nge. intros Hrp. apply Hne.
    apply Qcle_antisym; [|done].
    eapply Qcle_trans; [exact Hle|]. by apply pair_asc_le, Hq.
  - constructor; [by apply IH|].
    rewrite insert_by_score_perm. constructor; [|done].
    left. by apply Qclt_nge.
Qed.

Lemma sort_by_score_sorted l :
  StronglySorted (λ p q, p.1 < q.1)%nat l ->
  StronglySorted pair_asc (sort_by_score l).
Proof.
  induction 1 as [|p l Hl IH Hp]; cbn; [constructor|].
  apply insert_by_score_sorted; [|done].
  by rewrite sort_by_score_perm.
Qed.

(** [enumerate(a)] *)
Lemma imap_pair_sorted a :
  StronglySorted (λ p q, p.1 < q.1)%nat (imap pair a).
Proof.
  apply StronglySorted_lookup_2. intros i j p q Hij Hp Hq.
  rewrite list_lookup_imap in Hp, Hq.
  destruct (a !! i); destruct (a !! j); simplify_eq/=. done.
Qed.

Lemma elem_of_imap_pair a p : p ∈ imap pair a ↔ a !! p.1 = Some p.2.
Proof.
  rewrite elem_of_lookup_imap. destruct p as [i s]. split.
  - by intros (j & y & [= -> ->] & Hy).
  - eauto.
Qed.

Lemma argsort_perm a : argsort a ≡ₚ seq 0 (length a).
Proof.
  unfold argsort. rewrite sort_by_score_perm.
  rewrite fmap_imap.
  change (imap (λ j (_ : Qc), id j) a ≡ₚ seq 0 (length a)).
  by rewrite imap_seq_0, list_fmap_id.
Qed.

Lemma length_argsort a : length (argsort a) = length a.
Proof. by rewrite argsort_perm, length_seq. Qed.

Lemma elem_of_argsort a i : i ∈ argsort a ↔ (i < length a)%nat.
Proof. rewrite argsort_perm, elem_of_seq. lia. Qed.

(** [argsort] returns the indices in ascending order of score, equal
    scores in ascending order of index. *)
Lemma argsort_sorted a : StronglySorted (rank_asc a) (argsort a).
Proof.
  unfold argsort.
  pose proof (sort_by_score_sorted _ (imap_pair_sorted a)) as Hs.
  assert (Forall (λ p, a !! p.1 = Some p.2) (sort_by_score (imap pair a))) as Hin.
  { rewrite sort_by_score_perm. apply Forall_forall. intros p.
    by rewrite elem_of_imap_pair. }
  induction Hs as [|p l Hl IH Hp]; csimpl; [constructor|].
  apply Forall_cons in Hin as [Hpa Hin].
  constructor; [by apply IH|].
  rewrite Forall_fmap. rewrite Forall_forall in Hp, Hin |- *.
  intros q Hq. exists p.2, q.2. split_and!; [done|by apply Hin|].
  destruct p, q. by apply Hp.
Qed.


Lemma elem_of_top_k_indices a top_k i :
  i ∈ top_k_indices a top_k -> (i < length a)%nat.
Proof.
  unfold top_k_indices. rewrite elem_of_reverse. intros Hi.
  apply elem_of_argsort. eapply elem_of_sublist; [done|].
  apply slice_from_sublist.
Qed.

Lemma length_top_k_indices a top_k :
  (0 < top_k)%Z -> (Z.of_nat (length (top_k_indices a top_k)) ≤ top_k)%Z.
Proof.
  intros Hk. unfold top_k_indices. rewrite length_reverse.
  pose proof (slice_from_length (- top_k) (argsort a)). lia.
Qed.

(** With [top_k = 0] the slice [[-0:]] is the whole array. *)
Lemma top_k_indices_0 a : top_k_indices a 0 = reverse (argsort a).
Proof. unfold top_k_indices. by rewrite slice_from_0. Qed.

(** A positive [top_k] keeps an index of maximal score. *)
Lemma top_k_indices_max a top_k :
  (0 < top_k)%Z -> a ≠ [] ->
  ∃ j sj, j ∈ top_k_indices a top_k ∧ a !! j = Some sj ∧
          ∀ i si, a !! i = Some si -> (si ≤ sj)%Qc.
Proof.
  intros Hk Ha.
  destruct (last (argsort a)) as [j|] eqn:Hlast; last first.
  { apply last_None in Hlast. apply (f_equal length) in Hlast.
    rewrite length_argsort in Hlast. by destruct a. }
  apply last_Some in Hlast as [l Hl].
  assert (j < length a)%nat as Hj.
  { apply elem_of_argsort. rewrite Hl. set_solver. }
  apply lookup_lt_is_Some_2 in Hj as [sj Hsj].
  exists j, sj. split_and!; [|done|].
  - unfold top_k_indices. rewrite elem_of_reverse, Hl.
    apply slice_from_last. lia.
  - intros i si Hi.
    assert (i ∈ l ++ [j]) as Hin.
    { rewrite <-Hl. apply elem_of_argsort. by eapply lookup_lt_Some. }
    apply elem_of_app in Hin as [Hin|Hin%list_elem_of_singleton].
    + pose proof (argsort_sorted a) as Hs. rewrite Hl in Hs.
      apply StronglySorted_app in Hs as (Hs & _ & _).
      destruct (Hs i j Hin) as (si' & sj' & Hi' & Hj' & Hlt); [set_solver|].
      simplify_eq. by apply pair_asc_le in Hlt.
    + simplify_eq. apply Qcle_refl.
Qed.


(** For a positive [top_k], at most [top_k] messages are selected. *)
Lemma length_selected a top_k :
  (0 < top_k)%Z -> (Z.of_nat (length (selected a top_k)) ≤ top_k)%Z.
Proof.
  intros Hk. pose proof (length_top_k_indices a top_k Hk).
  pose proof (length_filter (relevant a) (top_k_indices a top_k)).
  unfold selected. lia.
Qed.

(** Every selected message scores above the threshold. *)
Lemma selected_relevant a top_k i :
  i ∈ selected a top_k -> ∃ s, a !! i = Some s ∧ (threshold < s)%Qc.
Proof. unfold selected. rewrite list_elem_of_filter. by intros [? _]. Qed.

End Ranking.

(** ** Retrieval *)

Section Retrieval.

Context {embedding : Type}.
Variable encode : string -> embedding.
Variable cosine_similarity : embedding -> embedding -> Qc.

Implicit Types (st : DataStore embedding) (sims : list Qc)
  (msgs : list string) (idxs : list nat) (ctx : string).

Local Abbreviation retrieve := (retrieve_relevant_context encode cosine_similarity).

(** The loop only ever appends newline-terminated lines. *)
Lemma build_context_newline sims msgs idxs ctx s :
  build_context sims msgs idxs ctx = Return s ->
  s = ctx ∨ ∃ s', s = s' +:+ newline.
Proof.
  revert ctx. induction idxs as [|idx rest IH]; intros ctx Hs; cbn in Hs.
  { left. by injection Hs. }
  destruct (sims !! idx) as [x|]; [|done].
  case_bool_decide; [|by apply IH].
  destruct (msgs !! idx) as [m|]; [|done].
  apply IH in Hs as [->|Hs]; [|by right].
  right. exists (ctx +:+ m). by rewrite append_assoc.
Qed.

(** Without messages, the loop stops at the first relevant index. *)
Lemma build_context_no_messages sims idxs ctx j :
  j ∈ idxs -> relevant sims j ->
  build_context sims [] idxs ctx = Raise IndexError.
Proof.
  intros Hj (s & Hs & Hlt).
  induction idxs as [|idx rest IH]; [by apply elem_of_nil in Hj|].
  cbn. destruct (sims !! idx) as [x|] eqn:Hx; [|done].
  case_bool_decide as Hrel; [done|].
  apply IH. apply elem_of_cons in Hj as [->|Hj]; [|done].
  by simplify_eq.
Qed.

(** With as many messages as scores, the loop returns the lines of the
    selected indices, in order. *)
Lemma lines_cons m ms : lines (m :: ms) = m +:+ newline +:+ lines ms.
Proof. reflexivity. Qed.

Lemma build_context_lines sims msgs idxs ctx :
  length msgs = length sims ->
  Forall (λ i, i < length sims)%nat idxs ->
  build_context sims msgs idxs ctx =
    Return (ctx +:+ lines ((msgs !!!.) <$> filter (relevant sims) idxs)).
Proof.
  intros Hlen Hidx. revert ctx.
  induction Hidx as [|idx rest Hi _ IH]; intros ctx.
  { cbn. by rewrite append_empty_r. }
  destruct (lookup_lt_is_Some_2 sims idx Hi) as [x Hx].
  cbn [build_context]. rewrite Hx.
  case_bool_decide as Hrel.
  - rewrite <-Hlen in Hi.
    destruct (lookup_lt_is_Some_2 msgs idx Hi) as [m Hm]. rewrite Hm.
    rewrite IH, filter_cons_True by (by exists x).
    rewrite fmap_cons, lines_cons, (list_lookup_total_correct _ _ _ Hm).
    by rewrite !append_assoc.
  - rewrite IH, filter_cons_False; [done|].
    intros (x' & Hx' & Hlt). by simplify_eq.
Qed.

(** What [retrieve_relevant_context] returns on a store that holds as
    many messages as embeddings. *)
Lemma retrieve_paired st es q top_k :
  embeddings st = Some es -> es ≠ [] ->
  length es = length (messages st) ->
  let sims := cosine_similarity (encode q) <$> es in
  retrieve st q top_k =
    Return (lines ((messages st !!!.) <$> selected sims top_k)).
Proof.
  intros Hes Hne Hlen sims. unfold retrieve_relevant_context. rewrite Hes.
  rewrite bool_decide_eq_false_2 by (by destruct es).
  fold sims. rewrite build_context_lines.
  - by rewrite append_empty_l.
  - unfold sims. by rewrite length_fmap.
  - apply Forall_forall. intros i. apply elem_of_top_k_indices.
Qed.


(** The store a build leaves when no record of the body is well formed. *)
Lemma fetch_and_index_empty net raw prior :
  delivers net raw -> kept_items raw = [] ->
  (fetch_and_index encode net prior).2 =
    {| messages := []; embeddings := embeddings prior |}.
Proof.
  intros Hnet He. rewrite (fetch_and_index_delivers _ _ _ _ Hnet). cbn.
  by rewrite He.
Qed.



(** C10: a non-empty context ends with a newline. *)
Theorem nonempty_context_ends_with_newline st q top_k s :
  retrieve st q top_k = Return s -> s ≠ "" ->
  ∃ s', s = s' +:+ newline.
Proof.
  unfold retrieve_relevant_context. intros Hs Hne.
  destruct (embeddings st) as [es|]; [|by simplify_eq].
  case_bool_decide; [by simplify_eq|].
  by apply build_context_newline in Hs as [->|Hs].
Qed.

(** C3, on the code: after a build that indexed messages, a rebuild
    that keeps no record empties the message list but not the
    embeddings, and retrieval then raises [IndexError] for every
    question that is relevant to one of the old embeddings. *)
Theorem retrieve_after_empty_rebuild_raises net raw prior es e q top_k :
  embeddings prior = Some es ->
  delivers net raw -> kept_items raw = [] ->
  e ∈ es -> (threshold < cosine_similarity (encode q) e)%Qc ->
  (0 < top_k)%Z ->
  retrieve (fetch_and_index encode net prior).2 q top_k = Raise IndexError.
Proof.
  intros Hes Hnet Hkept He Hrel Hk.
  rewrite (fetch_and_index_empty _ _ _ Hnet Hkept).
  unfold retrieve_relevant_context. cbn. rewrite Hes.
  rewrite bool_decide_eq_false_2 by (intros Hl; destruct es; [set_solver|done]).
  set (sims := cosine_similarity (encode q) <$> es).
  destruct (top_k_indices_max sims top_k Hk) as (j & sj & Hj & Hsj & Hmax).
  { unfold sims. destruct es; [set_solver|done]. }
  apply (build_context_no_messages _ _ _ j Hj).
  exists sj. split; [done|].
  apply list_elem_of_lookup in He as [i Hi].
  eapply Qclt_le_trans; [exact Hrel|].
  apply (Hmax i). unfold sims. by rewrite list_lookup_fmap, Hi.
Qed.

End Retrieval.

(** ** Ties *)

Lemma top_k_indices_ranked_from (a : list Qc) top_k :
  top_k_indices a top_k = ranked_from (argsort a) top_k.
Proof. reflexivity. Qed.

(** The model of [np.argsort] is one of the orders numpy may return. *)
Lemma argsort_is_argsort (a : list Qc) : is_argsort a (argsort a).
Proof.
  split; [apply argsort_perm|].
  pose proof (argsort_sorted a) as Hs.
  induction Hs as [|i l Hl IH Hi]; constructor; [done|].
  eapply Forall_impl; [exact Hi|].
  intros j (si & sj & Hsi & Hsj & Hlt). exists si, sj.
  split_and!; [done..|]. by apply pair_asc_le in Hlt.
Qed.

Lemma before_reverse {A} (l : list A) (x y : A) :
  before (reverse l) x y -> before l y x.
Proof.
  intros (l1 & l2 & l3 & Hl). apply (f_equal reverse) in Hl.
  rewrite reverse_involutive in Hl.
  exists (reverse l3), (reverse l2), (reverse l1). rewrite Hl.
  rewrite reverse_app, reverse_cons, reverse_app, reverse_cons.
  by rewrite <-!(assoc_L (++)).
Qed.

Lemma before_slice_from {A} (start : Z) (l : list A) (x y : A) :
  before (slice_from start l) x y -> before l x y.
Proof.
  unfold slice_from. set (n := Z.to_nat _).
  intros (l1 & l2 & l3 & Hl).
  exists (take n l ++ l1), l2, l3.
  by rewrite <-(assoc_L (++)), <-Hl, take_drop.
Qed.

(** C4, as the code has it: whatever ascending order [np.argsort]
    returns, the ranking is in descending order of score, and two ranked
    messages come in the reverse of the order [np.argsort] lists them in.
    Nothing in it looks at the insertion index of equal scores. *)
Theorem ties_follow_argsort (similarities : list Qc) order top_k :
  is_argsort similarities order ->
  StronglySorted (flip (score_le similarities)) (ranked_from order top_k) ∧
  ∀ i j, before (ranked_from order top_k) i j -> before order j i.
Proof.
  intros [_ Hsorted]. split.
  - apply StronglySorted_reverse.
    eapply StronglySorted_sublist; [apply slice_from_sublist|done].
  - intros i j Hij. unfold ranked_from in Hij.
    by apply before_reverse, before_slice_from in Hij.
Qed.

(** ** The /ask endpoint *)

Section Ask.

Context {embedding : Type}.
Variable encode : string -> embedding.
Variable cosine_similarity : embedding -> embedding -> Qc.
Variable llm : string -> result string.

Implicit Types (data_store : DataStore embedding) (calls : list string).

Local Abbreviation retrieve := (retrieve_relevant_context encode cosine_similarity).
Local Abbreviation ask := (ask_question encode cosine_similarity llm).

(** The handler up to the generation step. *)
Lemma ask_question_with_context data_store question context calls :
  messages data_store ≠ [] ->
  retrieve data_store question default_top_k = Return context ->
  context ≠ "" ->
  ask data_store question calls =
    match llm (make_prompt context question) with
    | Return text =>
        (Return {| answer := if bool_decide (strip text = "")
                             then trouble_generating else strip text |},
         calls ++ [make_prompt context question])
    | Raise e =>
        (Raise (HTTPException 500 generation_error_detail),
         calls ++ [make_prompt context question])
    end.
Proof.
  intros Hms Hctx Hne. unfold ask_question.
  rewrite bool_decide_eq_false_2 by done.
  unfold bind, lift. rewrite Hctx.
  rewrite bool_decide_eq_false_2 by done.
  unfold try_except, bind, generate_content_async.
  by destruct (llm _).
Qed.

(** C7: with messages in the store and an empty context, the handler
    returns the canned answer and sends no prompt to the generative
    model. *)
Theorem empty_context_skips_generation data_store question calls :
  messages data_store ≠ [] ->
  retrieve data_store question default_top_k = Return "" ->
  ask data_store question calls = (Return {| answer := no_information |}, calls).
Proof.
  intros Hms Hctx. unfold ask_question.
  rewrite bool_decide_eq_false_2 by done.
  unfold bind, lift. rewrite Hctx. reflexivity.
Qed.

(** C8: whatever exception the generative model raises, the handler
    raises the same HTTPException 500 whose detail is a fixed text; and
    when the model's text is blank once stripped, the answer is the
    canned "trouble generating" message. *)
Theorem generation_failure_is_generic data_store question context calls :
  messages data_store ≠ [] ->
  retrieve data_store question default_top_k = Return context ->
  context ≠ "" ->
  (∀ e, llm (make_prompt context question) = Raise e ->
     ask data_store question calls =
       (Raise (HTTPException 500 generation_error_detail),
        calls ++ [make_prompt context question])) ∧
  (∀ text, llm (make_prompt context question) = Return text ->
     strip text = "" ->
     ask data_store question calls =
       (Return {| answer := trouble_generating |},
        calls ++ [make_prompt context question])).
Proof.
  intros Hms Hctx Hne.
  rewrite (ask_question_with_context _ _ _ _ Hms Hctx Hne).
  split.
  - by intros e ->.
  - intros text -> Hblank. by rewrite bool_decide_eq_true_2.
Qed.

End Ask.

(** ** The code on concrete inputs *)

Lemma is_argsort_two_equal_scores :
  is_argsort [1%Qc; 1%Qc] [0; 1]%nat ∧ is_argsort [1%Qc; 1%Qc] [1; 0]%nat.
Proof.
  assert (∀ i j, (i < 2)%nat -> (j < 2)%nat -> score_le [1%Qc; 1%Qc] i j) as Hle.
  { intros i j Hi Hj. exists 1%Qc, 1%Qc.
    destruct i as [|[|i]], j as [|[|j]]; try lia; by split_and!. }
  split; (split; [|repeat constructor; apply Hle; lia]).
  - done.
  - apply Permutation_swap.
Qed.

(** C4 as stated does not hold: an ascending argsort may list two equal
    scores in index order, as numpy's insertion pass does on a short
    array, and the ranking then has index 1 before index 0. *)
Lemma equal_scores_ranked_higher_index_first :
  ¬ (∀ (similarities : list Qc) order top_k,
       is_argsort similarities order ->
       ties_lower_index_first similarities order top_k).
Proof.
  intros H.
  specialize (H [1%Qc; 1%Qc] [0; 1]%nat 10%Z (proj1 is_argsort_two_equal_scores)
                1%nat 0%nat).
  assert (1 < 0)%nat; [|lia]. apply H; [|done].
  by exists [], [], [].
Qed.

(** For two equal scores both orders are ascending, and the code ranks
    either index first accordingly. *)
Lemma tie_order_is_open :
  (is_argsort [1%Qc; 1%Qc] [0; 1]%nat ∧ ranked_from [0; 1]%nat 10 = [1; 0]%nat) ∧
  (is_argsort [1%Qc; 1%Qc] [1; 0]%nat ∧ ranked_from [1; 0]%nat 10 = [0; 1]%nat).
Proof.
  destruct is_argsort_two_equal_scores as [H01 H10].
  split; (split; [done|]); vm_compute; reflexivity.
Qed.

Lemma ties_follow_argsort_witness :
  StronglySorted (flip (score_le [1%Qc; 1%Qc])) (ranked_from (argsort [1%Qc; 1%Qc]) 10) ∧
  ∀ i j, before (ranked_from (argsort [1%Qc; 1%Qc]) 10) i j ->
         before (argsort [1%Qc; 1%Qc]) j i.
Proof.
  apply (ties_follow_argsort [1%Qc; 1%Qc] (argsort [1%Qc; 1%Qc]) 10).
  apply argsort_is_argsort.
Defined.

(** C5, on the code: with [top_k = 0] the slice [[-0:]] keeps every
    index, whatever the scores, and the context then holds both messages
    of a store of two. *)
Theorem top_k_zero_returns_every_message :
  (∀ similarities : list Qc,
     length (top_k_indices similarities 0) = length similarities) ∧
  retrieve_relevant_context Toy.encode Toy.cosine_similarity
    Toy.two_messages Toy.close_question 0 = Return Toy.two_lines.
Proof.
  split.
  - intros similarities.
    by rewrite top_k_indices_0, length_reverse, length_argsort.
  - vm_compute. reflexivity.
Qed.

Lemma retrieve_after_empty_rebuild_raises_witness :
  retrieve_relevant_context Toy.encode Toy.cosine_similarity
    (fetch_and_index Toy.encode (Toy.ok []) Toy.two_messages).2
    Toy.close_question 10 = Raise IndexError.
Proof.
  apply (retrieve_after_empty_rebuild_raises Toy.encode Toy.cosine_similarity
           (Toy.ok []) Toy.no_items Toy.two_messages [8%nat; 8%nat] 8%nat).
  - reflexivity.
  - eexists. split_and!; [reflexivity| |reflexivity]. cbn. lia.
  - vm_compute. reflexivity.
  - set_solver.
  - vm_compute. reflexivity.
  - lia.
Defined.

Lemma nonempty_context_ends_with_newline_witness :
  ∃ s', Toy.two_lines = s' +:+ newline.
Proof.
  apply (nonempty_context_ends_with_newline Toy.encode Toy.cosine_similarity
           Toy.two_messages Toy.close_question 10).
  - vm_compute. reflexivity.
  - discriminate.
Defined.


Lemma empty_context_skips_generation_witness :
  ask_question Toy.encode Toy.cosine_similarity Toy.failing
    Toy.two_messages Toy.far_question [] =
    (Return {| answer := no_information |}, []).
Proof.
  apply (empty_context_skips_generation Toy.encode Toy.cosine_similarity
           Toy.failing Toy.two_messages Toy.far_question []).
  - vm_compute. discriminate.
  - vm_compute. reflexivity.
Defined.

Lemma generation_failure_is_generic_witness :
  ask_question Toy.encode Toy.cosine_similarity Toy.failing
    Toy.two_messages Toy.close_question [] =
    (Raise (HTTPException 500 generation_error_detail),
     [make_prompt Toy.two_lines Toy.close_question]) ∧
  ask_question Toy.encode Toy.cosine_similarity Toy.blank
    Toy.two_messages Toy.close_question [] =
    (Return {| answer := trouble_generating |},
     [make_prompt Toy.two_lines Toy.close_question]).
Proof.
  split.
  - destruct (generation_failure_is_generic Toy.encode Toy.cosine_similarity
                Toy.failing Toy.two_messages Toy.close_question Toy.two_lines [])
      as [Hraise _].
    + vm_compute. discriminate.
    + vm_compute. reflexivity.
    + discriminate.
    + exact (Hraise _ eq_refl).
  - destruct (generation_failure_is_generic Toy.encode Toy.cosine_similarity
                Toy.blank Toy.two_messages Toy.close_question Toy.two_lines [])
      as [_ Hblank].
    + vm_compute. discriminate.
    + vm_compute. reflexivity.
    + discriminate.
    + apply (Hblank _ eq_refl). vm_compute. reflexivity.
Defined.

(** ** More on the build *)

Section BuildMore.

Context {embedding : Type}.
Variable encode : string -> embedding.

Implicit Types (st : DataStore embedding) (net : http_exchange).

Lemma fetch_and_index_aligned net st :
  aligned encode st -> aligned encode (fetch_and_index encode net st).2.
Proof.
  intros Hst.
  destruct (http_exchange_cases net)
    as [(d & ->)|[(r & -> & Hs)|[(r & -> & Hs & Hj)|(raw & Hraw)]]].
  - rewrite fetch_and_index_request_error. by intros [].
  - by rewrite fetch_and_index_status_error.
  - by rewrite fetch_and_index_json_error.
  - rewrite (fetch_and_index_delivers _ _ _ _ Hraw). cbn.
    case_bool_decide as Hms; cbn; [|done].
    by intros [].
Qed.

Lemma reachable_aligned st : reachable encode st -> aligned encode st.
Proof.
  induction 1 as [|net st _ IH]; [by intros []|].
  by apply fetch_and_index_aligned.
Qed.

(** In every store reachable through builds that holds messages, the
    embeddings are the encodings of the messages, one per message and in
    the same order. *)
Theorem reachable_embeddings_aligned st :
  reachable encode st -> messages st ≠ [] ->
  embeddings st = Some (encode <$> messages st).
Proof. intros Hst. by apply reachable_aligned. Qed.

(** The transport error of the request never reaches the caller of the
    build, whatever the data source did and whatever the store held. *)
Theorem transport_error_never_reaches_caller net st d :
  (fetch_and_index encode net st).1 ≠ Raise (RequestError d).
Proof.
  destruct (http_exchange_cases net)
    as [(d' & ->)|[(r & -> & Hs)|[(r & -> & Hs & Hj)|(raw & Hraw)]]].
  - by rewrite fetch_and_index_request_error.
  - by rewrite fetch_and_index_status_error.
  - by rewrite fetch_and_index_json_error.
  - by rewrite (fetch_and_index_delivers _ _ _ _ Hraw).
Qed.

(** Building twice from the same answer of the data source gives what
    building once gives. *)
Theorem fetch_and_index_idempotent net st :
  fetch_and_index encode net (fetch_and_index encode net st).2 =
  fetch_and_index encode net st.
Proof.
  destruct (http_exchange_cases net)
    as [(d & ->)|[(r & -> & Hs)|[(r & -> & Hs & Hj)|(raw & Hraw)]]].
  - by rewrite !fetch_and_index_request_error.
  - by rewrite !fetch_and_index_status_error.
  - by rewrite !fetch_and_index_json_error.
  - rewrite !(fetch_and_index_delivers _ _ _ _ Hraw). cbn.
    by case_bool_decide.
Qed.

(** A build that indexes at least one record replaces the store
    wholesale: nothing of the prior store is left. *)
Theorem successful_build_forgets_prior_store net raw st1 st2 :
  delivers net raw -> kept_items raw ≠ [] ->
  fetch_and_index encode net st1 = fetch_and_index encode net st2.
Proof.
  intros Hnet Hne. rewrite !(fetch_and_index_delivers _ _ _ _ Hnet). cbn.
  rewrite bool_decide_eq_false_2; [done|].
  by destruct (kept_items raw).
Qed.

(** A decoded body without an ["items"] key is an empty corpus: the
    build returns normally with no message, and keeps the embeddings. *)
Theorem missing_items_key_is_empty_corpus net raw st :
  delivers net raw -> raw !! "items" = None ->
  fetch_and_index encode net st =
    (Return (), {| messages := []; embeddings := embeddings st |}).
Proof.
  intros Hnet Hraw. rewrite (fetch_and_index_delivers _ _ _ _ Hnet).
  unfold kept_items. by rewrite Hraw.
Qed.

(** After a build whose body was decoded, the messages are exactly the
    lines ["user_name: message"] of the records that have both keys. *)
Theorem messages_are_lines_of_well_formed_records net raw st line :
  delivers net raw ->
  line ∈ messages (fetch_and_index encode net st).2 ↔
  ∃ (it : item) u t,
    it ∈ default [] (raw !! "items") ∧
    it !! "user_name" = Some u ∧ it !! "message" = Some t ∧
    line = u +:+ ": " +:+ t.
Proof.
  intros Hnet.
  assert (messages (fetch_and_index encode net st).2 =
            format_item <$> kept_items raw) as ->.
  { rewrite (fetch_and_index_delivers _ _ _ _ Hnet). cbn.
    by case_bool_decide. }
  rewrite list_elem_of_fmap. unfold kept_items.
  setoid_rewrite list_elem_of_filter. split.
  - intros (it & -> & [Hm Hu] & Hit).
    destruct Hm as [t Ht], Hu as [u Hu]. exists it, u, t.
    split_and!; [done..|]. unfold format_item.
    by rewrite (lookup_total_correct _ _ _ Hu), (lookup_total_correct _ _ _ Ht).
  - intros (it & u & t & Hit & Hu & Ht & ->). exists it.
    split_and!; [|split; by eexists|done]. unfold format_item.
    by rewrite (lookup_total_correct _ _ _ Hu), (lookup_total_correct _ _ _ Ht).
Qed.

(** [GET /] after a build whose body was decoded reports as many indexed
    messages as the body has records with both keys, whatever the store
    held before; after a build whose request failed it reports none. *)
Theorem read_root_counts_well_formed_records net st :
  (∀ raw, delivers net raw ->
     indexed_messages (read_root (startup_event encode net st).2) =
       length (filter has_fields (default [] (raw !! "items"))) ∧
     (indexed_messages (read_root (startup_event encode net st).2)
        ≤ length (default [] (raw !! "items")))%nat) ∧
  (∀ d, net = GetRaises d ->
     indexed_messages (read_root (startup_event encode net st).2) = 0%nat).
Proof.
  unfold startup_event, read_root. cbn [indexed_messages]. split.
  - intros raw Hnet.
    assert (messages (fetch_and_index encode net st).2 =
              format_item <$> kept_items raw) as ->.
    { rewrite (fetch_and_index_delivers _ _ _ _ Hnet). cbn.
      by case_bool_decide. }
    rewrite length_fmap. unfold kept_items. split; [done|].
    apply length_filter.
  - intros d ->. by rewrite fetch_and_index_request_error.
Qed.

End BuildMore.

Lemma reachable_embeddings_aligned_witness :
  embeddings Toy.two_messages = Some (Toy.encode <$> messages Toy.two_messages).
Proof.
  apply (reachable_embeddings_aligned Toy.encode).
  - unfold Toy.two_messages. apply reachable_build, reachable_init.
  - vm_compute. discriminate.
Defined.

Lemma successful_build_forgets_prior_store_witness :
  fetch_and_index Toy.encode (Toy.ok [Toy.amy; Toy.sam]) init =
  fetch_and_index Toy.encode (Toy.ok [Toy.amy; Toy.sam]) Toy.two_messages.
Proof.
  apply (successful_build_forgets_prior_store Toy.encode
           _ {[ "items" := [Toy.amy; Toy.sam] ]}).
  - eexists. split_and!; [reflexivity| |reflexivity]. cbn. lia.
  - vm_compute. discriminate.
Defined.

Lemma missing_items_key_is_empty_corpus_witness :
  fetch_and_index Toy.encode
    (GetReturns {| status_code := 200; json := Some Toy.no_items_key |})
    Toy.two_messages =
    (Return (), {| messages := []; embeddings := embeddings Toy.two_messages |}).
Proof.
  apply (missing_items_key_is_empty_corpus Toy.encode _ Toy.no_items_key).
  - eexists. split_and!; [reflexivity| |reflexivity]. cbn. lia.
  - reflexivity.
Defined.

Lemma messages_are_lines_of_well_formed_records_witness :
  "Amy: tea" ∈ messages
    (fetch_and_index Toy.encode (Toy.ok [Toy.anonymous; Toy.amy]) init).2 ↔
  ∃ (it : item) u t,
    it ∈ default [] (({[ "items" := [Toy.anonymous; Toy.amy] ]} : raw_data) !! "items") ∧
    it !! "user_name" = Some u ∧ it !! "message" = Some t ∧
    "Amy: tea" = u +:+ ": " +:+ t.
Proof.
  apply (messages_are_lines_of_well_formed_records Toy.encode).
  eexists. split_and!; [reflexivity| |reflexivity]. cbn. lia.
Defined.

(** ** More on ranking and retrieval *)

Section RankingMore.

Implicit Types (a : list Qc).

Lemma NoDup_argsort a : NoDup (argsort a).
Proof. rewrite argsort_perm. apply NoDup_seq. Qed.

Lemma NoDup_top_k_indices a top_k : NoDup (top_k_indices a top_k).
Proof.
  unfold top_k_indices. rewrite reverse_Permutation.
  eapply sublist_NoDup; [apply NoDup_argsort|apply slice_from_sublist].
Qed.

(** No stored message is ranked twice, nor put twice in the context. *)
Theorem selected_no_duplicates a top_k :
  NoDup (top_k_indices a top_k) ∧ NoDup (selected a top_k).
Proof.
  split; [apply NoDup_top_k_indices|].
  apply NoDup_filter, NoDup_top_k_indices.
Qed.

(** How many messages are ranked: [top_k] of them when that many are
    stored and [top_k] is positive, all of them when fewer are stored;
    for a [top_k] that is zero or negative, all but the [- top_k] lowest
    scores. *)
Theorem top_k_indices_length_exact a top_k :
  ((0 < top_k)%Z ->
     Z.of_nat (length (top_k_indices a top_k)) = Z.min top_k (Z.of_nat (length a))) ∧
  ((top_k ≤ 0)%Z ->
     Z.of_nat (length (top_k_indices a top_k)) = Z.max (Z.of_nat (length a) + top_k) 0).
Proof.
  unfold top_k_indices, slice_from.
  rewrite length_reverse, length_drop, length_argsort. split; intros Hk.
  - rewrite bool_decide_eq_true_2 by lia. lia.
  - rewrite bool_decide_eq_false_2 by lia. lia.
Qed.

(** The ranking keeps the highest scores: a message that is left out
    scores no more than any message that is ranked. *)
Theorem ranking_keeps_highest_scores a top_k i j si sj :
  a !! i = Some si -> a !! j = Some sj ->
  j ∈ top_k_indices a top_k -> i ∉ top_k_indices a top_k ->
  (si ≤ sj)%Qc.
Proof.
  unfold top_k_indices, slice_from. rewrite !elem_of_reverse.
  set (n := Z.to_nat _). intros Hi Hj Hjin Hiout.
  pose proof (argsort_sorted a) as Hs.
  rewrite <-(take_drop n (argsort a)) in Hs.
  apply StronglySorted_app in Hs as (Hs & _ & _).
  assert (i ∈ take n (argsort a)) as Hitake.
  { assert (i ∈ argsort a) as Hin.
    { apply elem_of_argsort. by eapply lookup_lt_Some. }
    rewrite <-(take_drop n (argsort a)) in Hin.
    by apply elem_of_app in Hin as [?|?]. }
  destruct (Hs i j Hitake Hjin) as (si' & sj' & Hi' & Hj' & Hlt).
  simplify_eq. by apply pair_asc_le in Hlt.
Qed.

Lemma lines_empty ms : lines ms = "" ↔ ms = [].
Proof.
  split; [|by intros ->].
  destruct ms as [|m ms]; [done|]. cbn.
  by destruct m.
Qed.

(** With a positive [top_k], no message is selected exactly when no
    stored message scores above the threshold. *)
Lemma selected_nil a top_k :
  (0 < top_k)%Z ->
  selected a top_k = [] ↔ Forall (λ s, s ≤ threshold)%Qc a.
Proof.
  intros Hk. rewrite Forall_lookup. split.
  - intros Hsel i si Hi.
    destruct (top_k_indices_max a top_k Hk) as (j & sj & Hj & Hsj & Hmax).
    { intros ->. done. }
    eapply Qcle_trans; [by apply (Hmax i)|].
    apply Qcle_ngt. intros Hlt.
    eapply (filter_nil_not_elem_of _ _ j Hsel); [|done].
    by exists sj.
  - intros Hall. unfold selected.
    destruct (filter _ _) as [|j l] eqn:Hf; [done|].
    assert (j ∈ filter (relevant a) (top_k_indices a top_k)) as Hj.
    { rewrite Hf. set_solver. }
    apply list_elem_of_filter in Hj as [(sj & Hsj & Hlt) _].
    apply Hall in Hsj. by apply Qcle_ngt in Hsj.
Qed.

End RankingMore.

Section RetrievalMore.

Context {embedding : Type}.
Variable encode : string -> embedding.
Variable cosine_similarity : embedding -> embedding -> Qc.

Implicit Types (st : DataStore embedding).

Local Abbreviation retrieve := (retrieve_relevant_context encode cosine_similarity).

(** On a store that holds as many messages as embeddings, and for a
    positive [top_k], the context is empty exactly when no stored
    embedding has a similarity to the question above the threshold. *)
Theorem context_empty_iff_no_relevant_message st es q top_k :
  embeddings st = Some es -> es ≠ [] ->
  length es = length (messages st) ->
  (0 < top_k)%Z ->
  retrieve st q top_k = Return "" ↔
  ∀ e, e ∈ es -> (cosine_similarity (encode q) e ≤ threshold)%Qc.
Proof.
  intros Hes Hne Hlen Hk.
  rewrite (retrieve_paired _ _ _ _ _ _ Hes Hne Hlen). cbn.
  set (sims := cosine_similarity (encode q) <$> es).
  transitivity (selected sims top_k = []).
  - split.
    + intros [= Hl]. apply lines_empty in Hl. by apply fmap_nil_inv in Hl.
    + by intros ->.
  - rewrite (selected_nil _ _ Hk). unfold sims.
    rewrite Forall_fmap, Forall_forall. done.
Qed.

(** On a store that never held embeddings, the context is empty for
    every question and every [top_k], also after a build that indexed
    nothing, be it for a failed request or for want of well-formed
    records. *)
Theorem retrieve_without_embeddings st net q top_k :
  embeddings st = None ->
  retrieve st q top_k = Return "" ∧
  ((∃ d, net = GetRaises d) ∨ (∃ raw, delivers net raw ∧ kept_items raw = []) ->
   retrieve (fetch_and_index encode net st).2 q top_k = Return "").
Proof.
  intros Hes. split.
  - unfold retrieve_relevant_context. by rewrite Hes.
  - intros [(d & ->)|(raw & Hnet & Hkept)].
    + rewrite fetch_and_index_request_error.
      unfold retrieve_relevant_context. cbn. by rewrite Hes.
    + rewrite (fetch_and_index_empty _ _ _ _ Hnet Hkept).
      unfold retrieve_relevant_context. cbn. by rewrite Hes.
Qed.

End RetrievalMore.

Lemma ranking_keeps_highest_scores_witness :
  (0 ≤ 1)%Qc.
Proof.
  assert (top_k_indices [0%Qc; 1%Qc; 1%Qc] 2 = [2; 1]%nat) as Hranked.
  { vm_compute. reflexivity. }
  apply (ranking_keeps_highest_scores [0%Qc; 1%Qc; 1%Qc] 2 0 1 0%Qc 1%Qc).
  - reflexivity.
  - reflexivity.
  - rewrite Hranked, !elem_of_cons. lia.
  - rewrite Hranked, !elem_of_cons, elem_of_nil. lia.
Defined.

Lemma context_empty_iff_no_relevant_message_witness :
  retrieve_relevant_context Toy.encode Toy.cosine_similarity
    Toy.two_messages Toy.far_question 10 = Return "" ↔
  ∀ e, e ∈ [8%nat; 8%nat] ->
    (Toy.cosine_similarity (Toy.encode Toy.far_question) e ≤ threshold)%Qc.
Proof.
  apply (context_empty_iff_no_relevant_message Toy.encode Toy.cosine_similarity
           Toy.two_messages [8%nat; 8%nat] Toy.far_question 10).
  - reflexivity.
  - discriminate.
  - reflexivity.
  - lia.
Defined.

Lemma retrieve_without_embeddings_witness :
  retrieve_relevant_context Toy.encode Toy.cosine_similarity
    init Toy.close_question 10 = Return "" ∧
  ((∃ d, GetRaises "timeout" = GetRaises d) ∨
   (∃ raw, delivers (GetRaises "timeout") raw ∧ kept_items raw = []) ->
   retrieve_relevant_context Toy.encode Toy.cosine_similarity
     (fetch_and_index Toy.encode (GetRaises "timeout") init).2
     Toy.close_question 10 = Return "").
Proof.
  apply (retrieve_without_embeddings Toy.encode Toy.cosine_similarity
           init (GetRaises "timeout") Toy.close_question 10).
  reflexivity.
Defined.

(** ** More on the /ask endpoint *)

Section AskMore.

Context {embedding : Type}.
Variable encode : string -> embedding.
Variable cosine_similarity : embedding -> embedding -> Qc.
Variable llm : string -> result string.

Implicit Types (data_store st : DataStore embedding) (calls : list string).

Local Abbreviation retrieve := (retrieve_relevant_context encode cosine_similarity).
Local Abbreviation ask := (ask_question encode cosine_similarity llm).

Lemma ask_question_unavailable data_store question calls :
  messages data_store = [] ->
  ask data_store question calls =
    (Raise (HTTPException 503 unavailable_detail), calls).
Proof.
  intros Hms. unfold ask_question. by rewrite bool_decide_eq_true_2.
Qed.

Lemma ask_question_retrieve_raises data_store question e calls :
  messages data_store ≠ [] ->
  retrieve data_store question default_top_k = Raise e ->
  ask data_store question calls = (Raise e, calls).
Proof.
  intros Hms He. unfold ask_question.
  rewrite bool_decide_eq_false_2 by done.
  unfold bind, lift. by rewrite He.
Qed.

Lemma ask_question_no_context data_store question calls :
  messages data_store ≠ [] ->
  retrieve data_store question default_top_k = Return "" ->
  ask data_store question calls = (Return {| answer := no_information |}, calls).
Proof.
  intros Hms Hctx. unfold ask_question.
  rewrite bool_decide_eq_false_2 by done.
  unfold bind, lift. by rewrite Hctx.
Qed.

(** The retrieval of a store that builds can reach and that holds
    messages returns: it does not raise. *)
Lemma retrieve_reachable_returns st question top_k :
  reachable encode st -> messages st ≠ [] ->
  ∃ context, retrieve st question top_k = Return context.
Proof.
  intros Hst Hms. pose proof (reachable_aligned _ _ Hst Hms) as Hes.
  eexists. apply (retrieve_paired _ _ _ _ _ _ Hes).
  - by destruct (messages st).
  - by rewrite length_fmap.
Qed.

(** After a build that left no message, a failed request or a body
    without well-formed record, every question is refused with the 503
    "unavailable" error and nothing is sent to the generative model,
    whatever the store held before. *)
Theorem build_without_messages_makes_ask_unavailable net st question calls :
  (∃ d, net = GetRaises d) ∨ (∃ raw, delivers net raw ∧ kept_items raw = []) ->
  ask (fetch_and_index encode net st).2 question calls =
    (Raise (HTTPException 503 unavailable_detail), calls).
Proof.
  intros Hnet. apply ask_question_unavailable.
  destruct Hnet as [(d & ->)|(raw & Hnet & Hkept)].
  - by rewrite fetch_and_index_request_error.
  - by rewrite (fetch_and_index_empty _ _ _ _ Hnet Hkept).
Qed.

(** When the context is not empty and the generative model answers a
    text that is not blank, the answer is that text without its leading
    and trailing whitespace, and the model received exactly one prompt,
    made of the context and the question. *)
Theorem ask_answers_with_stripped_text data_store question context text calls :
  messages data_store ≠ [] ->
  retrieve data_store question default_top_k = Return context ->
  context ≠ "" ->
  llm (make_prompt context question) = Return text ->
  strip text ≠ "" ->
  ask data_store question calls =
    (Return {| answer := strip text |}, calls ++ [make_prompt context question]).
Proof.
  intros Hms Hctx Hne Hllm Htext.
  rewrite (ask_question_with_context _ _ _ _ _ _ _ Hms Hctx Hne), Hllm.
  by rewrite bool_decide_eq_false_2.
Qed.

(** One question costs at most one call of the generative model: the
    handler sends nothing, or one prompt, and never retries. *)
Theorem ask_calls_model_at_most_once data_store question calls :
  (ask data_store question calls).2 = calls ∨
  ∃ context,
    retrieve data_store question default_top_k = Return context ∧
    (ask data_store question calls).2 = calls ++ [make_prompt context question].
Proof.
  destruct (decide (messages data_store = [])) as [Hms|Hms].
  { left. by rewrite ask_question_unavailable. }
  destruct (retrieve data_store question default_top_k) as [context|e] eqn:Hctx.
  - destruct (decide (context = "")) as [->|Hne].
    + left. by rewrite ask_question_no_context.
    + right. exists context. split; [done|].
      rewrite (ask_question_with_context _ _ _ _ _ _ _ Hms Hctx Hne).
      by destruct (llm _).
  - left. by rewrite (ask_question_retrieve_raises _ _ e).
Qed.

(** An answer of the handler is never the empty string. *)
Theorem ask_answer_never_empty data_store question calls a calls' :
  ask_question encode cosine_similarity llm data_store question calls =
    (Return a, calls') ->
  answer a ≠ "".
Proof.
  destruct (decide (messages data_store = [])) as [Hms|Hms].
  { by rewrite ask_question_unavailable. }
  destruct (retrieve data_store question default_top_k) as [context|e] eqn:Hctx.
  - destruct (decide (context = "")) as [->|Hne].
    + rewrite ask_question_no_context by done. by intros [= <- _].
    + rewrite (ask_question_with_context _ _ _ _ _ _ _ Hms Hctx Hne).
      destruct (llm _) as [text|]; [|done].
      case_bool_decide as Hblank; by intros [= <- _].
  - by rewrite (ask_question_retrieve_raises _ _ e).
Qed.

(** On a store that builds can reach, the handler raises nothing but its
    two HTTP errors, 503 and 500: the [IndexError] of a retrieval over
    stale embeddings cannot come out of /ask. *)
Theorem ask_on_reachable_store_raises_503_or_500 st question calls e calls' :
  reachable encode st ->
  ask st question calls = (Raise e, calls') ->
  e = HTTPException 503 unavailable_detail ∨
  e = HTTPException 500 generation_error_detail.
Proof.
  intros Hst.
  destruct (decide (messages st = [])) as [Hms|Hms].
  { rewrite ask_question_unavailable by done. intros [= <- _]. by left. }
  destruct (retrieve_reachable_returns st question default_top_k Hst Hms)
    as [context Hctx].
  destruct (decide (context = "")) as [->|Hne].
  - by rewrite ask_question_no_context.
  - rewrite (ask_question_with_context _ _ _ _ _ _ _ Hms Hctx Hne).
    destruct (llm _); [done|]. intros [= <- _]. by right.
Qed.

(** On a store that builds can reach and for the default [top_k], the
    handler gives the canned "no information" answer exactly when the
    store holds messages none of which scores above the threshold. *)
Theorem no_information_iff_no_relevant_message st question calls :
  reachable encode st -> messages st ≠ [] ->
  ask st question calls = (Return {| answer := no_information |}, calls) ↔
  ∀ m, m ∈ messages st ->
    (cosine_similarity (encode question) (encode m) ≤ threshold)%Qc.
Proof.
  intros Hst Hms. pose proof (reachable_aligned _ _ Hst Hms) as Hes.
  assert (retrieve st question default_top_k = Return "" ↔
          ∀ m, m ∈ messages st ->
            (cosine_similarity (encode question) (encode m) ≤ threshold)%Qc)
    as <-.
  { rewrite (retrieve_paired _ _ _ _ _ _ Hes);
      [|by destruct (messages st)|by rewrite length_fmap].
    cbn. set (sims := cosine_similarity (encode question) <$> _).
    transitivity (selected sims default_top_k = []).
    - split.
      + intros [= Hl]. apply lines_empty in Hl. by apply fmap_nil_inv in Hl.
      + by intros ->.
    - rewrite selected_nil by done. unfold sims.
      by rewrite !Forall_fmap, Forall_forall. }
  split.
  - intros Hask.
    destruct (retrieve st question default_top_k) as [context|e] eqn:Hctx.
    + destruct (decide (context = "")) as [->|Hne]; [done|].
      rewrite (ask_question_with_context _ _ _ _ _ _ _ Hms Hctx Hne) in Hask.
      destruct (llm _); [|done].
      injection Hask as _ Hcalls.
      apply (f_equal length) in Hcalls. rewrite length_app in Hcalls.
      cbn in Hcalls. lia.
    + by rewrite (ask_question_retrieve_raises _ _ e) in Hask.
  - by apply ask_question_no_context.
Qed.

End AskMore.

(** ** Blank answers *)








Section Blank.

Context {embedding : Type}.
Variable encode : string -> embedding.
Variable cosine_similarity : embedding -> embedding -> Qc.
Variable llm : string -> result string.

Implicit Types (data_store : DataStore embedding) (calls : list string).


End Blank.

(** ** The added properties on concrete inputs *)

Lemma read_root_counts_well_formed_records_witness :
  indexed_messages
    (read_root (startup_event Toy.encode (Toy.ok [Toy.anonymous; Toy.amy]) init).2)
    = 1%nat.
Proof.
  destruct (read_root_counts_well_formed_records Toy.encode
              (Toy.ok [Toy.anonymous; Toy.amy]) init) as [Hcount _].
  destruct (Hcount {[ "items" := [Toy.anonymous; Toy.amy] ]}) as [-> _].
  - eexists. split_and!; [reflexivity| |reflexivity]. cbn. lia.
  - vm_compute. reflexivity.
Defined.

Lemma build_without_messages_makes_ask_unavailable_witness :
  ask_question Toy.encode Toy.cosine_similarity Toy.helpful
    (fetch_and_index Toy.encode (GetRaises "timeout") Toy.two_messages).2
    Toy.close_question [] =
    (Raise (HTTPException 503 unavailable_detail), []).
Proof.
  apply (build_without_messages_makes_ask_unavailable
           Toy.encode Toy.cosine_similarity Toy.helpful
           (GetRaises "timeout") Toy.two_messages Toy.close_question []).
  left. by eexists.
Defined.

Lemma ask_answers_with_stripped_text_witness :
  ask_question Toy.encode Toy.cosine_similarity Toy.helpful
    Toy.two_messages Toy.close_question [] =
    (Return {| answer := "Amy likes tea." |},
     [make_prompt Toy.two_lines Toy.close_question]).
Proof.
  apply (ask_answers_with_stripped_text Toy.encode Toy.cosine_similarity
           Toy.helpful Toy.two_messages Toy.close_question Toy.two_lines
           ("  Amy likes tea." +:+ newline) []).
  - vm_compute. discriminate.
  - vm_compute. reflexivity.
  - discriminate.
  - reflexivity.
  - vm_compute. discriminate.
Defined.

Lemma ask_answer_never_empty_witness :
  answer {| answer := trouble_generating |} ≠ "".
Proof.
  apply (ask_answer_never_empty Toy.encode Toy.cosine_similarity Toy.blank
           Toy.two_messages Toy.close_question []
           {| answer := trouble_generating |}
           [make_prompt Toy.two_lines Toy.close_question]).
  vm_compute. reflexivity.
Defined.

Lemma ask_on_reachable_store_raises_503_or_500_witness :
  HTTPException 500 generation_error_detail =
    HTTPException 503 unavailable_detail ∨
  HTTPException 500 generation_error_detail =
    HTTPException 500 generation_error_detail.
Proof.
  apply (ask_on_reachable_store_raises_503_or_500
           Toy.encode Toy.cosine_similarity Toy.failing
           Toy.two_messages Toy.close_question []
           (HTTPException 500 generation_error_detail)
           [make_prompt Toy.two_lines Toy.close_question]).
  - unfold Toy.two_messages. apply reachable_build, reachable_init.
  - vm_compute. reflexivity.
Defined.

Lemma no_information_iff_no_relevant_message_witness :
  ask_question Toy.encode Toy.cosine_similarity Toy.helpful
    Toy.two_messages Toy.far_question [] =
    (Return {| answer := no_information |}, []) ↔
  ∀ m, m ∈ messages Toy.two_messages ->
    (Toy.cosine_similarity (Toy.encode Toy.far_question) (Toy.encode m)
       ≤ threshold)%Qc.
Proof.
  apply (no_information_iff_no_relevant_message
           Toy.encode Toy.cosine_similarity Toy.helpful
           Toy.two_messages Toy.far_question []).
  - unfold Toy.two_messages. apply reachable_build, reachable_init.
  - vm_compute. discriminate.
Defined.


(** When [top_k] is at least the number of stored messages, the context
    misses no relevant message: the selected indices are exactly the
    ones that score above the threshold. *)
Theorem covering_top_k_selects_every_relevant_message (a : list Qc) top_k i :
  (Z.of_nat (length a) ≤ top_k)%Z ->
  i ∈ selected a top_k ↔ relevant a i.
Proof.
  intros Hk. unfold selected. rewrite list_elem_of_filter.
  split; [by intros [? _]|]. intros Hrel. split; [done|].
  destruct Hrel as (s & Hs & _). apply lookup_lt_Some in Hs.
  unfold top_k_indices, slice_from. rewrite elem_of_reverse.
  rewrite length_argsort.
  replace (Z.to_nat _) with 0%nat.
  - rewrite drop_0. by apply elem_of_argsort.
  - case_bool_decide; lia.
Qed.

Lemma covering_top_k_selects_every_relevant_message_witness :
  1%nat ∈ selected [0%Qc; 1%Qc] 10 ↔ relevant [0%Qc; 1%Qc] 1.
Proof.
  apply (covering_top_k_selects_every_relevant_message [0%Qc; 1%Qc] 10 1).
  cbn. lia.
Defined.
